(** * Inflexion: the mass point of a deformable linear object

    A shallow embedding of [MassPoint.h] (class [MassPoint], its inline
    member functions and its stream inserter) and of the declarations of
    [stdafx.h] it relies on ([Real], [zeroVec]).

    [Real] is the C++ [double]; it is embedded as Rocq's primitive
    binary64 floating-point type, so every sum and product below rounds
    the way the compiled program does. *)

From Stdlib Require Import Floats ZArith List String Ascii DecimalString.
Import ListNotations.

Set Implicit Arguments.

Local Open Scope string_scope.
Local Open Scope float_scope.

(* ================================================================= *)
(** ** stdafx.h *)

(** [typedef double Real;] *)
Definition Real : Set := float.

(* ================================================================= *)
(** ** vector_math.h (namespace vmath) *)

Module vmath.

(** Modelled from the spec: [vec3<T>], declared in vector_math.h (included
    through stdafx.h) and not in MassPoint.h.  The spec describes
    "a 3-component real-valued vector type supporting addition, scaling,
    dot/cross product, and norm"; the component names [x], [y], [z] are the
    ones the stream inserter of MassPoint.h reads. *)
Record vec3 (T : Type) : Type := mkvec3 { x : T; y : T; z : T }.

Arguments mkvec3 {T} _ _ _.

Definition vmap {A B} (g : A -> B) (a : vec3 A) : vec3 B :=
  mkvec3 (g (x a)) (g (y a)) (g (z a)).

Definition vzip {A B C} (g : A -> B -> C) (a : vec3 A) (b : vec3 B) : vec3 C :=
  mkvec3 (g (x a) (x b)) (g (y a) (y b)) (g (z a) (z b)).

(** Modelled from the spec: [vec3<Real>::operator+=], the component-wise sum
    of doubles; the result is the new content of the left operand. *)
Definition vadd (a b : vec3 Real) : vec3 Real := vzip PrimFloat.add a b.

(** Modelled from the spec: [operator*(Real, vec3<Real>)], every component
    multiplied by a double. *)
Definition vscale (k : Real) (a : vec3 Real) : vec3 Real :=
  vmap (PrimFloat.mul k) a.

(** Component-wise negation and difference, and the dot product. *)
Definition vopp (a : vec3 Real) : vec3 Real := vmap PrimFloat.opp a.

Definition vsub (a b : vec3 Real) : vec3 Real := vzip PrimFloat.sub a b.

Definition dot (a b : vec3 Real) : Real :=
  x a * x b + y a * y b + z a * z b.

End vmath.

(** [using namespace vmath;] *)
Import vmath.

(** [const vec3<Real> zeroVec(0.,0.,0.);] *)
Definition zeroVec : vec3 Real := mkvec3 0 0 0.

(* ================================================================= *)
(** ** class MassPoint *)

(** The thirteen data members, in declaration order. *)
Record MassPoint : Set := mkMassPoint {
  r : vec3 Real;  rMinus : vec3 Real;  rPlus : vec3 Real;  r0 : vec3 Real;
  v : vec3 Real;  vMinus : vec3 Real;  vPlus : vec3 Real;  v0 : vec3 Real;
  vRes : vec3 Real;  f : vec3 Real;  dr : vec3 Real;  df : vec3 Real;
  mass : Real
}.

(** Assignment to one data member of [*this]. *)
Definition set_r (a : vec3 Real) (p : MassPoint) : MassPoint :=
  mkMassPoint a (rMinus p) (rPlus p) (r0 p) (v p) (vMinus p) (vPlus p) (v0 p)
              (vRes p) (f p) (dr p) (df p) (mass p).

Definition set_rPlus (a : vec3 Real) (p : MassPoint) : MassPoint :=
  mkMassPoint (r p) (rMinus p) a (r0 p) (v p) (vMinus p) (vPlus p) (v0 p)
              (vRes p) (f p) (dr p) (df p) (mass p).

Definition set_vPlus (a : vec3 Real) (p : MassPoint) : MassPoint :=
  mkMassPoint (r p) (rMinus p) (rPlus p) (r0 p) (v p) (vMinus p) a (v0 p)
              (vRes p) (f p) (dr p) (df p) (mass p).

Definition set_vRes (a : vec3 Real) (p : MassPoint) : MassPoint :=
  mkMassPoint (r p) (rMinus p) (rPlus p) (r0 p) (v p) (vMinus p) (vPlus p) (v0 p)
              a (f p) (dr p) (df p) (mass p).

Definition set_f (a : vec3 Real) (p : MassPoint) : MassPoint :=
  mkMassPoint (r p) (rMinus p) (rPlus p) (r0 p) (v p) (vMinus p) (vPlus p) (v0 p)
              (vRes p) a (dr p) (df p) (mass p).

Definition set_dr (a : vec3 Real) (p : MassPoint) : MassPoint :=
  mkMassPoint (r p) (rMinus p) (rPlus p) (r0 p) (v p) (vMinus p) (vPlus p) (v0 p)
              (vRes p) (f p) a (df p) (mass p).

Definition set_df (a : vec3 Real) (p : MassPoint) : MassPoint :=
  mkMassPoint (r p) (rMinus p) (rPlus p) (r0 p) (v p) (vMinus p) (vPlus p) (v0 p)
              (vRes p) (f p) (dr p) a (mass p).

Definition set_mass (m : Real) (p : MassPoint) : MassPoint :=
  mkMassPoint (r p) (rMinus p) (rPlus p) (r0 p) (v p) (vMinus p) (vPlus p) (v0 p)
              (vRes p) (f p) (dr p) (df p) m.

(** A member function body is a sequence of statements, each a function
    from the object before it to the object after it. *)
Definition seq (s1 s2 : MassPoint -> MassPoint) : MassPoint -> MassPoint :=
  fun p => s2 (s1 p).

Notation "s1 ;; s2" := (seq s1 s2) (at level 61, left associativity).

(** [void SetMass(Real mass) { this->mass = mass; }] *)
Definition SetMass (m : Real) : MassPoint -> MassPoint :=
  fun this => set_mass m this.

(** [void ResetForce() { this->f = this->df; this->df = zeroVec; }] *)
Definition ResetForce : MassPoint -> MassPoint :=
  (fun this => set_f (df this) this) ;;
  (fun this => set_df zeroVec this).

(** [void ResetDisplacement() { this->dr = zeroVec; }] *)
Definition ResetDisplacement : MassPoint -> MassPoint :=
  fun this => set_dr zeroVec this.

(** [void ResetRestitutionVelocity() { this->vRes = zeroVec; }] *)
Definition ResetRestitutionVelocity : MassPoint -> MassPoint :=
  fun this => set_vRes zeroVec this.

(** [void CorrectPosition() { rPlus += dr; }] *)
Definition CorrectPosition : MassPoint -> MassPoint :=
  fun this => set_rPlus (vadd (rPlus this) (dr this)) this.

(** [void CorrectVelocity() { vPlus += vRes; }] *)
Definition CorrectVelocity : MassPoint -> MassPoint :=
  fun this => set_vPlus (vadd (vPlus this) (vRes this)) this.

(** [void AddExternalForce(const vec3<Real>& force) { this->f += force; }] *)
Definition AddExternalForce (force : vec3 Real) : MassPoint -> MassPoint :=
  fun this => set_f (vadd (f this) force) this.

(** [void AddDampingForce(const Real& b) { this->f += - b * v; }]
    Unary minus binds tighter than [*]: the operand is [(-b) * v]. *)
Definition AddDampingForce (b : Real) : MassPoint -> MassPoint :=
  fun this => set_f (vadd (f this) (vscale (- b) (v this))) this.

(** [void Perturb(vec3<Real> v) { this->r += v; }] *)
Definition Perturb (v : vec3 Real) : MassPoint -> MassPoint :=
  fun this => set_r (vadd (r this) v) this.

(* ================================================================= *)
(** ** Naming the data members *)

(** The data members of [MassPoint], as an enumeration: a statement about
    "every other field" quantifies over it. *)
Inductive Member : Set :=
| M_r | M_rMinus | M_rPlus | M_r0
| M_v | M_vMinus | M_vPlus | M_v0
| M_vRes | M_f | M_dr | M_df
| M_mass.

(** The value a data member holds: a vector, or the scalar [mass]. *)
Definition member_value (m : Member) (p : MassPoint) : vec3 Real + Real :=
  match m with
  | M_r => inl (r p) | M_rMinus => inl (rMinus p)
  | M_rPlus => inl (rPlus p) | M_r0 => inl (r0 p)
  | M_v => inl (v p) | M_vMinus => inl (vMinus p)
  | M_vPlus => inl (vPlus p) | M_v0 => inl (v0 p)
  | M_vRes => inl (vRes p) | M_f => inl (f p)
  | M_dr => inl (dr p) | M_df => inl (df p)
  | M_mass => inr (mass p)
  end.

(** [q] holds what [p] holds in every data member outside [ms]. *)
Definition unchanged_except (ms : list Member) (p q : MassPoint) : Prop :=
  forall m : Member, ~ In m ms -> member_value m q = member_value m p.

(** The three accumulators collision handling writes to. *)
Definition accumulators (p : MassPoint) : vec3 Real * vec3 Real * vec3 Real :=
  (df p, dr p, vRes p).

(* ================================================================= *)
(** ** The public mutating member functions, as a call language *)

Inductive Mutator : Set :=
| CallSetMass (m : Real)
| CallResetForce
| CallResetDisplacement
| CallResetRestitutionVelocity
| CallCorrectPosition
| CallCorrectVelocity
| CallAddExternalForce (force : vec3 Real)
| CallAddDampingForce (b : Real)
| CallPerturb (w : vec3 Real).

Definition call (c : Mutator) : MassPoint -> MassPoint :=
  match c with
  | CallSetMass m => SetMass m
  | CallResetForce => ResetForce
  | CallResetDisplacement => ResetDisplacement
  | CallResetRestitutionVelocity => ResetRestitutionVelocity
  | CallCorrectPosition => CorrectPosition
  | CallCorrectVelocity => CorrectVelocity
  | CallAddExternalForce force => AddExternalForce force
  | CallAddDampingForce b => AddDampingForce b
  | CallPerturb w => Perturb w
  end.

(** A history of calls on one object, oldest first. *)
Definition call_all (cs : list Mutator) (p : MassPoint) : MassPoint :=
  fold_left (fun q c => call c q) cs p.

(* ================================================================= *)
(** ** The stream inserter *)

(** An output stream is the sequence of characters written to it so far. *)
Definition ostream : Set := string.

(** [operator<<] is overloaded on the type of what is inserted. *)
Class Insertable (A : Type) : Type := insert : ostream -> A -> ostream.

Notation "out << a" := (insert out a) (at level 50, left associativity).

#[export] Instance insert_string : Insertable string :=
  fun out s => (out ++ s)%string.

(** [endl]: a line feed (the flush that follows writes no character). *)
Inductive manipulator : Set := endl.

Definition line_break : string := String "010"%char EmptyString.

#[export] Instance insert_manipulator : Insertable manipulator :=
  fun out _ => (out ++ line_break)%string.

Section StreamInserter.

(** How the stream renders a [double] under its formatting state (flags,
    precision), which belongs to the standard library and is taken as
    given; no insertion below changes it. *)
Variable show : Real -> string.

#[local] Instance insert_Real : Insertable Real :=
  fun out a => (out ++ show a)%string.

(** [[
inline ostream& operator<<(ostream& output, const MassPoint& p) {
  output << "(" <<  p.r.x << ", " << p.r.y << ", "<< p.r.z <<")"<< " -- ";
  output << "(" <<  p.r0.x << ", " << p.r0.y << ", "<< p.r0.z <<")"<<endl;
  return output;
}
]] *)
Definition operator_insert (output : ostream) (p : MassPoint) : ostream :=
  let output :=
    output << "(" << x (r p) << ", " << y (r p) << ", " << z (r p) << ")" << " -- " in
  let output :=
    output << "(" << x (r0 p) << ", " << y (r0 p) << ", " << z (r0 p) << ")" << endl in
  output.

(** The text "(a, b, c)" for a vector. *)
Definition render_vec3 (a : vec3 Real) : string :=
  ("(" ++ show (x a) ++ ", " ++ show (y a) ++ ", " ++ show (z a) ++ ")")%string.

End StreamInserter.

(* ================================================================= *)
(** ** MassPoint::CollisionUtilities *)

(** [CollideLinks] receives twelve [MassPoint*]: the points live in an
    array owned elsewhere, and one point may be reached through several of
    the twelve pointers (neighbouring links share a triangle). *)
Definition ptr : Set := nat.

Definition Store : Set := ptr -> MassPoint.

Definition store_update (s : Store) (a : ptr) (p : MassPoint) : Store :=
  fun b => if Nat.eqb b a then p else s b.

(** The twelve pointer arguments, under their parameter names. *)
Record Links : Set := mkLinks {
  Pi : ptr;  Qi : ptr;  Ri : ptr;  Pip1 : ptr;  Qip1 : ptr;  Rip1 : ptr;
  Pj : ptr;  Qj : ptr;  Rj : ptr;  Pjp1 : ptr;  Qjp1 : ptr;  Rjp1 : ptr
}.

Definition pointers (L : Links) : list ptr :=
  [Pi L; Qi L; Ri L; Pip1 L; Qip1 L; Rip1 L;
   Pj L; Qj L; Rj L; Pjp1 L; Qjp1 L; Rjp1 L].

Section CollideLinks.

(** Step 1 of the spec: the centroid of a structural triangle.  The spec
    does not say which position sample it is taken from. *)
Variable centroid : MassPoint -> MassPoint -> MassPoint -> vec3 Real.

(** Step 2 of the spec: the minimal distance between two segments, each
    given by its end points; the spec leaves the construction open. *)
Variable segmentDistance :
  vec3 Real -> vec3 Real -> vec3 Real -> vec3 Real -> Real.

(** Steps 4 to 7 of the spec: the accumulation of forces, restitution
    velocities and displacements once a collision is detected. *)
Variable respond : Links -> Real -> Real -> Store -> Store.

(** The minimal distance [d] between the centerlines of the two links. *)
Definition centerlineDistance (L : Links) (s : Store) : Real :=
  segmentDistance
    (centroid (s (Pi L)) (s (Qi L)) (s (Ri L)))
    (centroid (s (Pip1 L)) (s (Qip1 L)) (s (Rip1 L)))
    (centroid (s (Pj L)) (s (Qj L)) (s (Rj L)))
    (centroid (s (Pjp1 L)) (s (Qjp1 L)) (s (Rjp1 L))).

(** Step 3 of the spec: "Collision is signaled when d < 2*rad". *)
Definition collision_signaled (L : Links) (rad : Real) (s : Store) : bool :=
  centerlineDistance L s <? 2 * rad.

(** Modelled from the spec: the body of [CollisionUtilities::CollideLinks],
    which MassPoint.h only declares.  Section 4.2 of the spec: compute the
    centerline segments from the triangle centroids, their minimal distance
    [d], signal a collision when [d < 2*rad], accumulate the response on a
    collision, and "No collision => no accumulator mutation". *)
Definition CollideLinks (L : Links) (rad mu : Real) (s : Store) : Store :=
  if collision_signaled L rad s then respond L rad mu s else s.

End CollideLinks.

(* ================================================================= *)
(** ** A worked scenario *)

(** Instances of what the sections above take as given, to run the
    definitions on the example scenarios of the spec.  They are choices
    made here, not part of the sources. *)
Module Scenario.

(** The centroid of the current positions [r] of a triangle. *)
Definition centroid (P Q R : MassPoint) : vec3 Real :=
  vscale (1 / 3) (vadd (vadd (r P) (r Q)) (r R)).

Definition clamp01 (t : Real) : Real :=
  if t <? 0 then 0 else if 1 <? t then 1 else t.

(** The usual closest-points construction between the segments [p1 q1] and
    [p2 q2]: parameters [s] and [t] of the closest points, clamped to the
    segments, then the distance between the two points. *)
Definition closestParameters (p1 q1 p2 q2 : vec3 Real) : Real * Real :=
  let d1 := vsub q1 p1 in
  let d2 := vsub q2 p2 in
  let w := vsub p1 p2 in
  let a := dot d1 d1 in
  let e := dot d2 d2 in
  let g := dot d2 w in
  if ((a <=? 0) && (e <=? 0))%bool then (0, 0)
  else if a <=? 0 then (0, clamp01 (g / e))
  else
    let c := dot d1 w in
    if e <=? 0 then (clamp01 (- c / a), 0)
    else
      let b := dot d1 d2 in
      let denom := a * e - b * b in
      let s := if denom =? 0 then 0 else clamp01 ((b * g - c * e) / denom) in
      let t := (b * s + g) / e in
      if t <? 0 then (clamp01 (- c / a), 0)
      else if 1 <? t then (clamp01 ((b - c) / a), 1)
      else (s, t).

Definition segmentDistance (p1 q1 p2 q2 : vec3 Real) : Real :=
  let '(s, t) := closestParameters p1 q1 p2 q2 in
  let c1 := vadd p1 (vscale s (vsub q1 p1)) in
  let c2 := vadd p2 (vscale t (vsub q2 p2)) in
  sqrt (dot (vsub c1 c2) (vsub c1 c2)).

(** A stand-in for the collision response, enough to make a detected
    collision visible: it adds the penetration depth [2*rad - d] to the
    [y] displacement of the point [Pj] points to. *)
Definition respond (L : Links) (rad mu : Real) (s : Store) : Store :=
  let d := centerlineDistance centroid segmentDistance L s in
  let p := s (Pj L) in
  store_update s (Pj L) (set_dr (vadd (dr p) (mkvec3 0 (2 * rad - d) 0)) p).

(** A point at rest at [pos], with every other member zero. *)
Definition at_rest (pos : vec3 Real) : MassPoint :=
  mkMassPoint pos pos pos pos zeroVec zeroVec zeroVec zeroVec
              zeroVec zeroVec zeroVec zeroVec 0.

(** Two links parallel to the x axis, from [x = 0] to [x = 1]: link A on
    the line [y = 0], link B on the line [y = h].  The three vertices of a
    triangle sit at [z = -1, 0, 1] around its centroid. *)
Definition triangle_vertex (ax ay : Real) (k : nat) : MassPoint :=
  at_rest (mkvec3 ax ay (match k with 0%nat => -1 | 1%nat => 0 | _ => 1 end)).

Definition parallel_links (h : Real) : Store :=
  fun a =>
    match a with
    | 0%nat | 1%nat | 2%nat => triangle_vertex 0 0 a
    | 3%nat | 4%nat | 5%nat => triangle_vertex 1 0 (a - 3)
    | 6%nat | 7%nat | 8%nat => triangle_vertex 0 h (a - 6)
    | _ => triangle_vertex 1 h (a - 9)
    end.

Definition the_links : Links := (mkLinks 0 1 2 3 4 5 6 7 8 9 10 11)%nat.

(** The default rendering of a [double] (six significant digits) when it
    holds an integer of magnitude below [10^6]: that integer in decimal.
    Other values are outside this illustration. *)
Definition integer_of (a : Real) : option Z :=
  match Prim2SF a with
  | S754_zero _ => Some 0%Z
  | S754_finite sgn m e =>
      let n := if sgn then Z.neg m else Z.pos m in
      if (0 <=? e)%Z then Some (n * 2 ^ e)%Z
      else if (n mod 2 ^ (- e) =? 0)%Z then Some (n / 2 ^ (- e))%Z
      else None
  | _ => None
  end.

Definition show (a : Real) : string :=
  match Prim2SF a, integer_of a with
  | S754_zero true, _ => "-0"
  | _, Some n =>
      if (Z.abs n <? 1000000)%Z
      then DecimalString.NilEmpty.string_of_int (Z.to_int n)
      else "?"
  | _, None => "?"
  end.

End Scenario.

(* ================================================================= *)
(** ** Vocabulary for the statements *)

(** [a'] is [a], except that a negative zero has become the positive one.
    This is what adding [0.] does to a double. *)
Definition same_up_to_zero_sign (a a' : Real) : Prop :=
  a' = a \/ (a = -0 /\ a' = 0).

Definition vec3_same_up_to_zero_sign (a a' : vec3 Real) : Prop :=
  same_up_to_zero_sign (x a) (x a') /\
  same_up_to_zero_sign (y a) (y a') /\
  same_up_to_zero_sign (z a) (z a').

Definition has_negative_zero (a : vec3 Real) : Prop :=
  x a = -0 \/ y a = -0 \/ z a = -0.

(** A point whose predicted position is [2^53] along x, about to be
    displaced by [1] along x: the sum [2^53 + 1] is not a double. *)
Definition far_point : MassPoint :=
  set_dr (mkvec3 1 0 0)
         (set_rPlus (mkvec3 9007199254740992 0 0) (Scenario.at_rest zeroVec)).

(** A point at the origin, about to be displaced by [1] along x. *)
Definition unit_step_point : MassPoint :=
  set_dr (mkvec3 1 0 0) (Scenario.at_rest zeroVec).

(** A point whose predicted x coordinate is the negative zero. *)
Definition negative_zero_point : MassPoint :=
  set_rPlus (mkvec3 (-0) 0 0) (Scenario.at_rest zeroVec).

(* ================================================================= *)
(** ** Vocabulary for histories of calls *)

(** Kinds of calls. *)
Definition is_SetMass (c : Mutator) : bool :=
  match c with CallSetMass _ => true | _ => false end.

Definition is_ResetForce (c : Mutator) : bool :=
  match c with CallResetForce => true | _ => false end.

Definition is_ResetDisplacement (c : Mutator) : bool :=
  match c with CallResetDisplacement => true | _ => false end.

Definition is_ResetRestitutionVelocity (c : Mutator) : bool :=
  match c with CallResetRestitutionVelocity => true | _ => false end.

Definition is_Perturb (c : Mutator) : bool :=
  match c with CallPerturb _ => true | _ => false end.

(** The two calls that add a force to [f]. *)
Definition adds_force (c : Mutator) : bool :=
  match c with
  | CallAddExternalForce _ | CallAddDampingForce _ => true
  | _ => false
  end.

(** A history in which no call is of the kind [k]. *)
Definition none_of (k : Mutator -> bool) (cs : list Mutator) : bool :=
  forallb (fun c => negb (k c)) cs.

(** The coordinates of a vector. *)
Inductive Axis : Set := Ax | Ay | Az.

Definition coord (a : Axis) (w : vec3 Real) : Real :=
  match a with Ax => x w | Ay => y w | Az => z w end.

(** A double that is neither an infinity nor a NaN. *)
Definition finite_double (a : Real) : bool :=
  match Prim2SF a with
  | S754_zero _ | S754_finite _ _ _ => true
  | _ => false
  end.

(** A double that is [+0.] or [-0.]. *)
Definition zero_double (a : Real) : bool :=
  match Prim2SF a with S754_zero _ => true | _ => false end.

(** A vector whose three coordinates are zeros, of either sign. *)
Definition null_vector (w : vec3 Real) : bool :=
  (zero_double (x w) && zero_double (y w) && zero_double (z w))%bool.

Definition finite_vector (w : vec3 Real) : bool :=
  (finite_double (x w) && finite_double (y w) && finite_double (z w))%bool.

(** The line the stream inserter writes for a point, and the insertion of
    several points one after the other, [out << p1 << p2 << ...]. *)
Definition text_line (show : Real -> string) (p : MassPoint) : string :=
  (render_vec3 show (r p) ++ " -- " ++ render_vec3 show (r0 p) ++ line_break)%string.

Definition insert_all (show : Real -> string) (out : ostream)
  (ps : list MassPoint) : ostream :=
  fold_left (operator_insert show) ps out.


(** The drag [(-b) * w] is a null vector: both factors are finite and the
    coefficient or the velocity is zero. *)
Definition no_drag (b : Real) (w : vec3 Real) : bool :=
  (finite_double b && finite_vector w
   && (zero_double b || null_vector w))%bool.

(** A point whose force has a NaN y coordinate. *)
Definition nan_force_point : MassPoint :=
  set_f (mkvec3 0 nan 0) unit_step_point.

(** A point whose displacement has a NaN z coordinate. *)
Definition nan_displacement_point : MassPoint :=
  set_dr (mkvec3 0 0 nan) unit_step_point.

(** The test for [-0.], and what adding [0.] makes of a double: the
    negative zero becomes the positive zero, every other double (a NaN
    included) is returned. *)
Definition is_negative_zero (a : Real) : bool :=
  match Prim2SF a with S754_zero true => true | _ => false end.

Definition plus_zero (a : Real) : Real :=
  if is_negative_zero a then 0 else a.

Definition has_nan (a : vec3 Real) : Prop :=
  x a = nan \/ y a = nan \/ z a = nan.

(* ================================================================= *)
(** * Properties *)

(* ================================================================= *)
(** ** Binary64 arithmetic *)

(** Adding [0.] returns the other operand, up to the sign of a zero. *)
Lemma add_zero_r (a : Real) : same_up_to_zero_sign a (a + 0).
Proof.
  unfold same_up_to_zero_sign.
  pose proof (add_spec a 0) as H.
  change (Prim2SF 0) with (S754_zero false) in H.
  destruct (Prim2SF a) as [sgn | sgn | | sgn m e] eqn:Ha; cbn in H.
  - destruct sgn.
    + right; split.
      * rewrite <- (SF2Prim_Prim2SF a), Ha; reflexivity.
      * apply Prim2SF_inj; rewrite H; reflexivity.
    + left; apply Prim2SF_inj; now rewrite H, Ha.
  - left; apply Prim2SF_inj; now rewrite H, Ha.
  - left; apply Prim2SF_inj; now rewrite H, Ha.
  - left; apply Prim2SF_inj; now rewrite H, Ha.
Qed.

Lemma add_zero_r_exact (a : Real) : a <> -0 -> a + 0 = a.
Proof.
  intros Hnz; destruct (add_zero_r a) as [E | [E _]]; [exact E | contradiction].
Qed.

(** The sign of a product is the exclusive or of the signs of its factors,
    and rounding does not look at it. *)
Lemma SFmul_opp_l (prec emax : Z) (a b : spec_float) :
  SFmul prec emax (SFopp a) b = SFopp (SFmul prec emax a b).
Proof.
  destruct a as [sa | sa | | sa ma ea], b as [sb | sb | | sb mb eb];
    cbn; try reflexivity; try (now destruct sa, sb).
  unfold binary_round_aux.
  destruct (shr_fexp _ _ _ _ _) as [mrs' e'].
  destruct (shr_fexp _ _ _ _ _) as [mrs'' e''].
  destruct (shr_m mrs''); try (now destruct sa, sb).
  destruct (Z.leb _ _); now destruct sa, sb.
Qed.

Lemma mul_opp_l (b w : Real) : (- b) * w = - (b * w).
Proof.
  apply Prim2SF_inj.
  rewrite mul_spec, !opp_spec, mul_spec.
  apply SFmul_opp_l.
Qed.

Lemma SFcompare_antisym (a b : spec_float) :
  SFcompare b a = option_map CompOpp (SFcompare a b).
Proof.
  destruct a as [sa | sa | | sa ma ea], b as [sb | sb | | sb mb eb];
    cbn; try reflexivity;
    try (now destruct sa, sb); try (now destruct sa); try (now destruct sb).
  change (Pos.compare_cont Eq mb ma) with (Pos.compare mb ma).
  change (Pos.compare_cont Eq ma mb) with (Pos.compare ma mb).
  destruct sa, sb; try reflexivity;
    rewrite (Z.compare_antisym ea eb); destruct (Z.compare ea eb); cbn;
    try reflexivity; now rewrite (Pos.compare_antisym ma mb).
Qed.

(** [a <= b] excludes [b < a]; both tests are false on a NaN. *)
Lemma leb_not_ltb (a b : Real) : (a <=? b) = true -> (b <? a) = false.
Proof.
  rewrite FloatAxioms.leb_spec, FloatAxioms.ltb_spec; unfold SFleb, SFltb.
  rewrite (SFcompare_antisym (Prim2SF a) (Prim2SF b)).
  destruct (SFcompare (Prim2SF a) (Prim2SF b)) as [[] | ]; cbn; congruence.
Qed.

(* ================================================================= *)
(** ** Vectors *)

Lemma vadd_zeroVec (a : vec3 Real) :
  vec3_same_up_to_zero_sign a (vadd a zeroVec).
Proof.
  unfold vec3_same_up_to_zero_sign; cbn; auto using add_zero_r.
Qed.

Lemma vadd_zeroVec_exact (a : vec3 Real) :
  ~ has_negative_zero a -> vadd a zeroVec = a.
Proof.
  unfold has_negative_zero; intros Hnz.
  destruct a as [ax ay az]; unfold vadd, vzip; cbn in *.
  f_equal; apply add_zero_r_exact; tauto.
Qed.

Lemma vscale_opp (b : Real) (w : vec3 Real) :
  vscale (- b) w = vopp (vscale b w).
Proof.
  unfold vscale, vopp, vmap; cbn; now rewrite !mul_opp_l.
Qed.

(* ================================================================= *)
(** ** What each member function leaves behind *)

(** Decides a frame statement whose two objects are spelled out: the
    members outside the list are syntactically the same. *)
Ltac frame :=
  let m := fresh "m" in
  let Hm := fresh "Hm" in
  intros m Hm; destruct m; try reflexivity;
  exfalso; apply Hm; cbn; tauto.

(** The enumeration [Member] misses no data member: two objects that agree
    on every member of it are equal. *)
Lemma unchanged_except_nil (p q : MassPoint) :
  unchanged_except [] p q -> q = p.
Proof.
  intros H.
  assert (G : forall m, member_value m q = member_value m p)
    by (intros m; apply H; intros []).
  pose proof (G M_r); pose proof (G M_rMinus); pose proof (G M_rPlus);
  pose proof (G M_r0); pose proof (G M_v); pose proof (G M_vMinus);
  pose proof (G M_vPlus); pose proof (G M_v0); pose proof (G M_vRes);
  pose proof (G M_f); pose proof (G M_dr); pose proof (G M_df);
  pose proof (G M_mass).
  destruct p, q; cbn in *; congruence.
Qed.

Lemma ResetForce_unfold (p : MassPoint) :
  ResetForce p =
  mkMassPoint (r p) (rMinus p) (rPlus p) (r0 p) (v p) (vMinus p) (vPlus p)
              (v0 p) (vRes p) (df p) (dr p) zeroVec (mass p).
Proof. reflexivity. Qed.

Lemma CorrectPosition_unfold (p : MassPoint) :
  CorrectPosition p =
  mkMassPoint (r p) (rMinus p) (vadd (rPlus p) (dr p)) (r0 p) (v p) (vMinus p)
              (vPlus p) (v0 p) (vRes p) (f p) (dr p) (df p) (mass p).
Proof. reflexivity. Qed.

Lemma ResetDisplacement_unfold (p : MassPoint) :
  ResetDisplacement p =
  mkMassPoint (r p) (rMinus p) (rPlus p) (r0 p) (v p) (vMinus p) (vPlus p)
              (v0 p) (vRes p) (f p) zeroVec (df p) (mass p).
Proof. reflexivity. Qed.

(** No call of the call language writes to [r0]. *)
Lemma call_keeps_r0 (c : Mutator) (p : MassPoint) : r0 (call c p) = r0 p.
Proof. destruct c; reflexivity. Qed.

(** A concrete point on which a second [CorrectPosition()] moves [rPlus]
    again. *)
Lemma CorrectPosition_second_call_moves :
  CorrectPosition (CorrectPosition unit_step_point)
  <> CorrectPosition unit_step_point.
Proof.
  intros H.
  apply (f_equal (fun p => Prim2SF (x (rPlus p)))) in H.
  vm_compute in H; discriminate H.
Qed.

(* ================================================================= *)
(** ** The member functions on concrete points *)

(** The per-step protocol on one point: the pending force is committed,
    gravity-like and damping forces go to [f], the corrections are added
    to the predictions. *)
Example one_step_sample :
  let p := mkMassPoint (mkvec3 0 0 0) zeroVec (mkvec3 1 1 1) (mkvec3 7 8 9)
                       (mkvec3 1 2 3) zeroVec (mkvec3 4 4 4) zeroVec
                       (mkvec3 0.5 0 0) (mkvec3 9 9 9) (mkvec3 0 0.25 0)
                       (mkvec3 0 0 5) 2 in
  let q := call_all [CallResetForce; CallAddExternalForce (mkvec3 0 (-10) 0);
                     CallAddDampingForce 2;
                     CallCorrectPosition; CallCorrectVelocity] p in
  f q = mkvec3 (-2) (-14) (-1) /\ df q = zeroVec /\
  rPlus q = mkvec3 1 1.25 1 /\ vPlus q = mkvec3 4.5 4 4 /\
  r0 q = mkvec3 7 8 9.
Proof. vm_compute; repeat split. Qed.

(** At [far_point] a call of [CorrectPosition()] adds [1] to [2^53] and
    the sum rounds back to [2^53]. *)
Example far_point_sample :
  x (rPlus (CorrectPosition far_point)) = 9007199254740992 /\
  x (rPlus (CorrectPosition (CorrectPosition far_point))) = 9007199254740992 /\
  x (vadd (rPlus far_point) (vscale 2 (dr far_point))) = 9007199254740994.
Proof. vm_compute; repeat split. Qed.

(* ================================================================= *)
(** ** The force accumulators *)

(** C1. [ResetForce()] stores in [f] the value [df] had before the call and
    stores the zero vector in [df]; every other data member keeps its value. *)
Theorem ResetForce_commits_deferred_force (p : MassPoint) :
  f (ResetForce p) = df p /\
  df (ResetForce p) = zeroVec /\
  unchanged_except [M_f; M_df] p (ResetForce p).
Proof.
  rewrite ResetForce_unfold; cbn [f df].
  repeat split; frame.
Qed.

(** C2. Two consecutive calls of [ResetForce()] leave both [f] and [df]
    equal to the zero vector, whatever they held before the first call. *)
Theorem ResetForce_twice_clears (p : MassPoint) :
  f (ResetForce (ResetForce p)) = zeroVec /\
  df (ResetForce (ResetForce p)) = zeroVec.
Proof.
  rewrite (ResetForce_unfold (ResetForce p)); cbn [f df].
  rewrite ResetForce_unfold; cbn [df].
  split; reflexivity.
Qed.

(** C6. [AddExternalForce(fvec)] adds [fvec] to the active accumulator [f]
    at once; the deferred buffer [df] and every other data member keep
    their values. *)
Theorem AddExternalForce_adds_to_f (fvec : vec3 Real) (p : MassPoint) :
  f (AddExternalForce fvec p) = vadd (f p) fvec /\
  df (AddExternalForce fvec p) = df p /\
  unchanged_except [M_f] p (AddExternalForce fvec p).
Proof.
  unfold AddExternalForce, set_f; cbn [f df].
  repeat split; frame.
Qed.

(** C7. [AddDampingForce(b)] adds to [f] the negated product of [b] with
    the current velocity [v] (the source computes it as [(-b) * v], which
    is the same double in every component), and changes no other data
    member; [vMinus] and [vPlus] play no part. *)
Theorem AddDampingForce_adds_minus_b_v (b : Real) (p : MassPoint) :
  f (AddDampingForce b p) = vadd (f p) (vopp (vscale b (v p))) /\
  f (AddDampingForce b p) = vadd (f p) (vscale (- b) (v p)) /\
  unchanged_except [M_f] p (AddDampingForce b p).
Proof.
  unfold AddDampingForce, set_f; cbn [f].
  split; [ now rewrite vscale_opp | split; [ reflexivity | frame ] ].
Qed.

(* ================================================================= *)
(** ** The corrections *)

(** C5. [CorrectVelocity()] adds the restitution velocity [vRes] to the
    predicted velocity [vPlus] and changes no other data member. *)
Theorem CorrectVelocity_adds_vRes (p : MassPoint) :
  vPlus (CorrectVelocity p) = vadd (vPlus p) (vRes p) /\
  unchanged_except [M_vPlus] p (CorrectVelocity p).
Proof.
  unfold CorrectVelocity, set_vPlus; cbn [vPlus].
  split; [ reflexivity | frame ].
Qed.

(** C4, as stated: after two calls [rPlus] would be its original value plus
    [2 * dr].  It is not at [far_point]: [2^53 + 1] rounds back to [2^53]
    on each call, while [2^53 + 2 * 1] is [2^53 + 2]. *)
Lemma CorrectPosition_twice_is_not_plus_2dr :
  rPlus (CorrectPosition (CorrectPosition far_point))
  <> vadd (rPlus far_point) (vscale 2 (dr far_point)).
Proof.
  intros H.
  apply (f_equal (fun a => Prim2SF (x a))) in H.
  vm_compute in H; discriminate H.
Qed.

(** C4, amended. [CorrectPosition()] adds [dr] to [rPlus] and changes no
    other data member; a second call without a reset in between adds [dr]
    once more, so that [rPlus] ends at [(rPlus + dr) + dr], each sum rounded
    to a double; and there are points on which the second call changes the
    object again: the operation is not idempotent. *)
Theorem CorrectPosition_adds_dr_each_call (p : MassPoint) :
  rPlus (CorrectPosition p) = vadd (rPlus p) (dr p) /\
  unchanged_except [M_rPlus] p (CorrectPosition p) /\
  rPlus (CorrectPosition (CorrectPosition p))
    = vadd (vadd (rPlus p) (dr p)) (dr p) /\
  unchanged_except [M_rPlus] p (CorrectPosition (CorrectPosition p)) /\
  (exists q : MassPoint,
      CorrectPosition (CorrectPosition q) <> CorrectPosition q).
Proof.
  rewrite (CorrectPosition_unfold (CorrectPosition p)).
  rewrite !CorrectPosition_unfold; cbn [rPlus dr].
  repeat split; try frame.
  exists unit_step_point; exact CorrectPosition_second_call_moves.
Qed.

(** C10, as stated: after [ResetDisplacement()], [CorrectPosition()] would
    be the identity.  It is not at [negative_zero_point]: [-0. + 0.] is
    [+0.], so the x coordinate of [rPlus] changes sign. *)
Lemma CorrectPosition_after_reset_is_not_identity :
  CorrectPosition (ResetDisplacement negative_zero_point)
  <> ResetDisplacement negative_zero_point.
Proof.
  intros H.
  apply (f_equal (fun p => Prim2SF (x (rPlus p)))) in H.
  vm_compute in H; discriminate H.
Qed.

Lemma is_negative_zero_true (a : Real) :
  is_negative_zero a = true -> a = -0.
Proof.
  unfold is_negative_zero; intros H.
  rewrite <- (SF2Prim_Prim2SF a).
  destruct (Prim2SF a) as [[ | ] | | | ]; try discriminate H; reflexivity.
Qed.

Lemma is_negative_zero_false (a : Real) :
  is_negative_zero a = false -> a <> -0.
Proof. intros H ->; discriminate H. Qed.

Lemma plus_zero_of_negative_zero (a : Real) : a = -0 -> plus_zero a = 0.
Proof. intros ->; reflexivity. Qed.

Lemma plus_zero_of_other (a : Real) : a <> -0 -> plus_zero a = a.
Proof.
  intros Hnz; unfold plus_zero.
  destruct (is_negative_zero a) eqn:E; [ | reflexivity ].
  now apply is_negative_zero_true in E.
Qed.

(** Adding [0.] to a double, exactly. *)
Lemma add_zero_r_plus_zero (a : Real) : a + 0 = plus_zero a.
Proof.
  unfold plus_zero; destruct (is_negative_zero a) eqn:E.
  - apply is_negative_zero_true in E; subst a; reflexivity.
  - apply add_zero_r_exact; now apply is_negative_zero_false.
Qed.

Lemma vadd_zeroVec_plus_zero (w : vec3 Real) :
  vadd w zeroVec = vmap plus_zero w.
Proof.
  unfold vadd, vzip, vmap; cbn [x y z zeroVec].
  now rewrite !add_zero_r_plus_zero.
Qed.

(** What [vmap plus_zero] does to each coordinate. *)
Lemma coord_plus_zero (a : Axis) (w : vec3 Real) :
  (coord a w = -0 -> coord a (vmap plus_zero w) = 0) /\
  (coord a w = nan -> coord a (vmap plus_zero w) = nan) /\
  (coord a w <> -0 -> coord a (vmap plus_zero w) = coord a w).
Proof.
  assert (E : coord a (vmap plus_zero w) = plus_zero (coord a w))
    by now destruct a.
  rewrite E; repeat split.
  - apply plus_zero_of_negative_zero.
  - intros ->; reflexivity.
  - apply plus_zero_of_other.
Qed.

Lemma vmap_plus_zero_exact (w : vec3 Real) :
  ~ has_negative_zero w -> vmap plus_zero w = w.
Proof.
  unfold has_negative_zero; intros Hnz.
  destruct w as [wx wy wz]; unfold vmap; cbn in *.
  f_equal; apply plus_zero_of_other; tauto.
Qed.

(** C10, amended. After [ResetDisplacement()], [CorrectPosition()] leaves
    [dr] zero and every data member other than [rPlus] exactly as it was.
    In [rPlus] a coordinate equal to the negative zero becomes the positive
    zero, a NaN coordinate stays NaN, and every other coordinate is exactly
    as it was: [rPlus] ends at [vmap plus_zero] of what it was.  When no
    coordinate of [rPlus] is a negative zero or a NaN the whole object is
    exactly as it was. *)
Theorem CorrectPosition_after_reset (p : MassPoint) :
  let q := ResetDisplacement p in
  dr (CorrectPosition q) = zeroVec /\
  unchanged_except [M_rPlus] q (CorrectPosition q) /\
  rPlus (CorrectPosition q) = vmap plus_zero (rPlus q) /\
  (forall a : Axis,
      (coord a (rPlus q) = -0 ->
       coord a (rPlus (CorrectPosition q)) = 0) /\
      (coord a (rPlus q) = nan ->
       coord a (rPlus (CorrectPosition q)) = nan) /\
      (coord a (rPlus q) <> -0 -> coord a (rPlus q) <> nan ->
       coord a (rPlus (CorrectPosition q)) = coord a (rPlus q))) /\
  (~ has_negative_zero (rPlus p) -> ~ has_nan (rPlus p) ->
   CorrectPosition q = q).
Proof.
  cbv zeta.
  rewrite CorrectPosition_unfold, !ResetDisplacement_unfold.
  cbn [rPlus dr r rMinus r0 v vMinus vPlus v0 vRes f df mass].
  rewrite vadd_zeroVec_plus_zero.
  split; [ reflexivity | ].
  split; [ frame | ].
  split; [ reflexivity | ].
  split.
  - intros a; destruct (coord_plus_zero a (rPlus p)) as (A & B & C).
    repeat split; auto.
  - intros Hnz _; now rewrite vmap_plus_zero_exact.
Qed.

(** At [unit_step_point] no coordinate of [rPlus] is a negative zero or a
    NaN, and the correction after a reset is the identity. *)
Lemma CorrectPosition_after_reset_sample :
  ~ has_negative_zero (rPlus unit_step_point) /\
  ~ has_nan (rPlus unit_step_point) /\
  CorrectPosition (ResetDisplacement unit_step_point)
  = ResetDisplacement unit_step_point.
Proof.
  assert (Hnz : ~ has_negative_zero (rPlus unit_step_point)).
  { intros [H | [H | H]];
      apply (f_equal Prim2SF) in H; vm_compute in H; discriminate H. }
  assert (Hnan : ~ has_nan (rPlus unit_step_point)).
  { intros [H | [H | H]];
      apply (f_equal Prim2SF) in H; vm_compute in H; discriminate H. }
  split; [ exact Hnz | ].
  split; [ exact Hnan | ].
  destruct (CorrectPosition_after_reset unit_step_point)
    as (_ & _ & _ & _ & Hid).
  exact (Hid Hnz Hnan).
Defined.

(* ================================================================= *)
(** ** The reference position *)

(** C8. None of the public mutating member functions [SetMass],
    [ResetForce], [ResetDisplacement], [ResetRestitutionVelocity],
    [CorrectPosition], [CorrectVelocity], [AddExternalForce],
    [AddDampingForce], [Perturb] writes to [r0]: one call leaves it
    unchanged, and so does any history of calls. *)
Theorem r0_is_never_mutated (cs : list Mutator) (p : MassPoint) :
  (forall c : Mutator, r0 (call c p) = r0 p) /\
  r0 (call_all cs p) = r0 p.
Proof.
  split; [ intros c; apply call_keeps_r0 | ].
  unfold call_all; revert p.
  induction cs as [ | c cs IH ]; intros p; cbn [fold_left].
  - reflexivity.
  - rewrite IH; apply call_keeps_r0.
Qed.

(* ================================================================= *)
(** ** The stream inserter *)

Lemma append_assoc (a b c : string) :
  ((a ++ b) ++ c = a ++ (b ++ c))%string.
Proof.
  induction a as [ | ch a IH ]; cbn; [ reflexivity | now rewrite IH ].
Qed.

Section StreamInserterFacts.

Variable show : Real -> string.

(** The inserter appends the rendering of [r], the separator, the
    rendering of [r0] and a line break. *)
Lemma operator_insert_by_parts (out : ostream) (p : MassPoint) :
  operator_insert show out p
  = (out ++ (render_vec3 show (r p) ++ " -- "
             ++ render_vec3 show (r0 p) ++ line_break))%string.
Proof.
  unfold operator_insert, render_vec3, insert,
    insert_string, insert_Real, insert_manipulator.
  now rewrite !append_assoc.
Qed.

(** C9. Streaming a point appends to the stream exactly the text
    "(x, y, z) -- (x0, y0, z0)" followed by a line break, where [x y z] are
    the coordinates of the current position [r] and [x0 y0 z0] those of
    the reference position [r0], each rendered the way the stream renders
    a double; no other data member is read, so that two points with the
    same [r] and [r0] are streamed as the same text. *)
Theorem operator_insert_renders_r_and_r0 (out : ostream) (p : MassPoint) :
  operator_insert show out p
  = (out ++
     ("(" ++ show (x (r p)) ++ ", " ++ show (y (r p)) ++ ", "
          ++ show (z (r p)) ++ ")")
     ++ " -- " ++
     ("(" ++ show (x (r0 p)) ++ ", " ++ show (y (r0 p)) ++ ", "
          ++ show (z (r0 p)) ++ ")")
     ++ line_break)%string /\
  (forall q : MassPoint,
      r q = r p -> r0 q = r0 p ->
      operator_insert show out q = operator_insert show out p).
Proof.
  split.
  - apply operator_insert_by_parts.
  - intros q Hr Hr0.
    now rewrite !operator_insert_by_parts, Hr, Hr0.
Qed.

End StreamInserterFacts.

(** Two points with the same [r] and [r0] and different velocities, masses
    and accumulators are streamed as the same text. *)
Lemma operator_insert_same_text :
  operator_insert Scenario.show ""
    (SetMass 3 (AddExternalForce (mkvec3 1 1 1) unit_step_point))
  = operator_insert Scenario.show "" (Scenario.at_rest zeroVec).
Proof.
  destruct (operator_insert_renders_r_and_r0
              Scenario.show "" (Scenario.at_rest zeroVec)) as [_ Hsame].
  apply Hsame; reflexivity.
Defined.

(** A point at (1, -2, 30) that has been perturbed to (2, -2, 30): the
    text shows the current position, then the reference position. *)
Example operator_insert_sample :
  operator_insert Scenario.show "p = "
    (Perturb (mkvec3 1 0 0) (Scenario.at_rest (mkvec3 1 (-2) 30)))
  = ("p = (2, -2, 30) -- (1, -2, 30)" ++ line_break)%string.
Proof. vm_compute; reflexivity. Qed.

(* ================================================================= *)
(** ** CollideLinks *)

Section CollideLinksFacts.

Variable centroid : MassPoint -> MassPoint -> MassPoint -> vec3 Real.
Variable segmentDistance :
  vec3 Real -> vec3 Real -> vec3 Real -> vec3 Real -> Real.
Variable respond : Links -> Real -> Real -> Store -> Store.

Let d := centerlineDistance centroid segmentDistance.
Let collide := CollideLinks centroid segmentDistance respond.

(** Without a signaled collision the store is returned as it is. *)
Lemma CollideLinks_not_signaled (L : Links) (rad mu : Real) (s : Store) :
  collision_signaled centroid segmentDistance L rad s = false ->
  collide L rad mu s = s.
Proof.
  unfold collide, CollideLinks; intros ->; reflexivity.
Qed.

(** A store that comes back changed was signaled, under [d < 2*rad]. *)
Lemma CollideLinks_changed_only_if_closer (L : Links) (rad mu : Real) (s : Store) :
  collide L rad mu s <> s -> (d L s <? 2 * rad) = true.
Proof.
  intros Hne.
  destruct (d L s <? 2 * rad) eqn:E; [ reflexivity | ].
  exfalso; apply Hne, CollideLinks_not_signaled; exact E.
Qed.

(** C3. When the minimal distance [d] between the two centerlines
    satisfies [d >= 2*rad], no collision is signaled and [CollideLinks]
    returns every point as it was; in particular the accumulators [df],
    [dr], [vRes] of the twelve points are unchanged.  A call that changes
    anything was made under the strict inequality [d < 2*rad]. *)
Theorem CollideLinks_no_op_when_apart (L : Links) (rad mu : Real) (s : Store) :
  (2 * rad <=? centerlineDistance centroid segmentDistance L s) = true ->
  collision_signaled centroid segmentDistance L rad s = false /\
  CollideLinks centroid segmentDistance respond L rad mu s = s /\
  Forall (fun a : ptr =>
            accumulators
              (CollideLinks centroid segmentDistance respond L rad mu s a)
            = accumulators (s a))
         (pointers L) /\
  (forall (rad' mu' : Real) (s' : Store),
      CollideLinks centroid segmentDistance respond L rad' mu' s' <> s' ->
      (centerlineDistance centroid segmentDistance L s' <? 2 * rad') = true).
Proof.
  intros Hge.
  assert (Hno : collision_signaled centroid segmentDistance L rad s = false)
    by (unfold collision_signaled; now apply leb_not_ltb).
  pose proof (@CollideLinks_not_signaled L rad mu s Hno) as Hid.
  unfold collide in Hid.
  repeat split.
  - exact Hno.
  - exact Hid.
  - rewrite Hid; apply Forall_forall; reflexivity.
  - intros rad' mu' s'; apply CollideLinks_changed_only_if_closer.
Qed.

End CollideLinksFacts.

(** The scenario of the spec with the links at [y = 0] and [y = 3] and
    [rad = 1]: [d = 3 >= 2], the call changes nothing. *)
Lemma CollideLinks_apart_scenario :
  (2 * 1 <=? centerlineDistance Scenario.centroid Scenario.segmentDistance
               Scenario.the_links (Scenario.parallel_links 3)) = true /\
  CollideLinks Scenario.centroid Scenario.segmentDistance Scenario.respond
    Scenario.the_links 1 0 (Scenario.parallel_links 3)
  = Scenario.parallel_links 3.
Proof.
  split.
  - vm_compute; reflexivity.
  - apply (@CollideLinks_no_op_when_apart
             Scenario.centroid Scenario.segmentDistance Scenario.respond
             Scenario.the_links 1 0 (Scenario.parallel_links 3)).
    vm_compute; reflexivity.
Defined.

(** The scenario with the links at [y = 0] and [y = 1.5]: [d = 1.5 < 2], a
    collision is signaled with penetration depth [0.5]. *)
Example CollideLinks_overlap_scenario :
  centerlineDistance Scenario.centroid Scenario.segmentDistance
    Scenario.the_links (Scenario.parallel_links 1.5) = 1.5 /\
  collision_signaled Scenario.centroid Scenario.segmentDistance
    Scenario.the_links 1 (Scenario.parallel_links 1.5) = true /\
  dr (CollideLinks Scenario.centroid Scenario.segmentDistance Scenario.respond
        Scenario.the_links 1 0 (Scenario.parallel_links 1.5) 6%nat)
  = mkvec3 0 0.5 0.
Proof. vm_compute; repeat split. Qed.

(** The links at [y = 0] and [y = 2] touch: [d = 2 = 2*rad] is not a
    collision. *)
Example CollideLinks_touching_scenario :
  centerlineDistance Scenario.centroid Scenario.segmentDistance
    Scenario.the_links (Scenario.parallel_links 2) = 2 /\
  collision_signaled Scenario.centroid Scenario.segmentDistance
    Scenario.the_links 1 (Scenario.parallel_links 2) = false.
Proof. vm_compute; repeat split. Qed.

(* ================================================================= *)
(** * Further properties of the member functions *)

(* ================================================================= *)
(** ** Histories of calls *)

Lemma call_all_cons (c : Mutator) (cs : list Mutator) (p : MassPoint) :
  call_all (c :: cs) p = call_all cs (call c p).
Proof. reflexivity. Qed.

Lemma call_all_snoc (cs : list Mutator) (c : Mutator) (p : MassPoint) :
  call_all (cs ++ [c]) p = call c (call_all cs p).
Proof. unfold call_all; now rewrite fold_left_app. Qed.

Lemma none_of_cons (k : Mutator -> bool) (c : Mutator) (cs : list Mutator) :
  none_of k (c :: cs) = true -> k c = false /\ none_of k cs = true.
Proof.
  unfold none_of; cbn [forallb]; intros H.
  apply andb_prop in H; destruct H as [Hc Hcs].
  split; [ now destruct (k c) | exact Hcs ].
Qed.

(** One call either keeps an accumulator or clears it. *)
Lemma call_keeps_or_clears (c : Mutator) (q : MassPoint) :
  (df (call c q) = df q \/ df (call c q) = zeroVec) /\
  (dr (call c q) = dr q \/ dr (call c q) = zeroVec) /\
  (vRes (call c q) = vRes q \/ vRes (call c q) = zeroVec).
Proof. destruct c; cbn; auto. Qed.

(** X1. Whatever history of the nine public mutating member functions a
    point goes through, each of the accumulators [df], [dr], [vRes] ends
    either at the value it started with or at the zero vector: no inline
    member function ever adds to them.  Accumulators that start at zero
    stay at zero. *)
Theorem accumulators_only_ever_cleared (cs : list Mutator) (p : MassPoint) :
  (df (call_all cs p) = df p \/ df (call_all cs p) = zeroVec) /\
  (dr (call_all cs p) = dr p \/ dr (call_all cs p) = zeroVec) /\
  (vRes (call_all cs p) = vRes p \/ vRes (call_all cs p) = zeroVec) /\
  (accumulators p = (zeroVec, zeroVec, zeroVec) ->
   accumulators (call_all cs p) = (zeroVec, zeroVec, zeroVec)).
Proof.
  assert (H : (df (call_all cs p) = df p \/ df (call_all cs p) = zeroVec) /\
              (dr (call_all cs p) = dr p \/ dr (call_all cs p) = zeroVec) /\
              (vRes (call_all cs p) = vRes p \/ vRes (call_all cs p) = zeroVec)).
  { induction cs as [ | c cs IH ] using rev_ind.
    - cbn; auto.
    - rewrite call_all_snoc.
      destruct (call_keeps_or_clears c (call_all cs p)) as (A & B & C).
      destruct IH as (A' & B' & C').
      repeat split.
      + destruct A as [-> | ->]; auto.
      + destruct B as [-> | ->]; auto.
      + destruct C as [-> | ->]; auto. }
  destruct H as (A & B & C).
  repeat split; try assumption.
  unfold accumulators; intros E; injection E as Edf Edr EvRes.
  rewrite Edf in A; rewrite Edr in B; rewrite EvRes in C.
  destruct A as [-> | ->], B as [-> | ->], C as [-> | ->]; reflexivity.
Qed.

(** One call writes to none of [rMinus], [v], [vMinus], [v0]. *)
Lemma call_keeps_samples (c : Mutator) (q : MassPoint) :
  rMinus (call c q) = rMinus q /\ v (call c q) = v q /\
  vMinus (call c q) = vMinus q /\ v0 (call c q) = v0 q.
Proof. destruct c; cbn; auto. Qed.

(** X2. The current velocity [v], the previous samples [rMinus] and
    [vMinus] and the initial velocity [v0] are written by none of the nine
    public mutating member functions: they survive every history of calls,
    so the drag [AddDampingForce(b)] adds is the same wherever in the
    history it is applied. *)
Theorem velocity_and_past_samples_never_written
  (cs : list Mutator) (p : MassPoint) :
  rMinus (call_all cs p) = rMinus p /\
  v (call_all cs p) = v p /\
  vMinus (call_all cs p) = vMinus p /\
  v0 (call_all cs p) = v0 p /\
  (forall b : Real,
      vscale (- b) (v (call_all cs p)) = vscale (- b) (v p)).
Proof.
  assert (H : rMinus (call_all cs p) = rMinus p /\ v (call_all cs p) = v p /\
              vMinus (call_all cs p) = vMinus p /\ v0 (call_all cs p) = v0 p).
  { induction cs as [ | c cs IH ] using rev_ind.
    - cbn; auto.
    - rewrite call_all_snoc.
      destruct (call_keeps_samples c (call_all cs p)) as (A & B & C & D).
      destruct IH as (A' & B' & C' & D').
      repeat split; congruence. }
  destruct H as (A & B & C & D).
  repeat split; try assumption.
  intros b; now rewrite B.
Qed.

(** A call other than [SetMass] neither reads nor writes [mass]. *)
Lemma call_SetMass_commute (c : Mutator) (m : Real) (p : MassPoint) :
  is_SetMass c = false -> call c (SetMass m p) = SetMass m (call c p).
Proof. destruct c; cbn; intros H; try reflexivity; discriminate H. Qed.

(** X3. The mass is read by no member function and written by [SetMass]
    only: across a history without [SetMass] the mass is kept, and setting
    the mass before the history gives the same object as setting it after. *)
Theorem SetMass_commutes_with_history
  (m : Real) (cs : list Mutator) (p : MassPoint) :
  none_of is_SetMass cs = true ->
  call_all cs (SetMass m p) = SetMass m (call_all cs p) /\
  mass (call_all cs p) = mass p.
Proof.
  revert p; induction cs as [ | c cs IH ]; intros p Hcs.
  - split; reflexivity.
  - apply none_of_cons in Hcs; destruct Hcs as [Hc Hcs].
    rewrite !call_all_cons.
    rewrite (call_SetMass_commute c m p Hc).
    destruct (IH (call c p) Hcs) as [IH1 IH2].
    split; [ exact IH1 | ].
    rewrite IH2; destruct c; try reflexivity; discriminate Hc.
Qed.

(** A history without [SetMass], and its effect on the mass. *)
Lemma SetMass_commutes_with_history_sample :
  none_of is_SetMass
    [CallResetForce; CallAddDampingForce 2; CallCorrectPosition] = true /\
  call_all [CallResetForce; CallAddDampingForce 2; CallCorrectPosition]
    (SetMass 5 unit_step_point)
  = SetMass 5
      (call_all [CallResetForce; CallAddDampingForce 2; CallCorrectPosition]
         unit_step_point).
Proof.
  split; [ reflexivity | ].
  apply (@SetMass_commutes_with_history 5
           [CallResetForce; CallAddDampingForce 2; CallCorrectPosition]
           unit_step_point).
  reflexivity.
Defined.

(* ================================================================= *)
(** ** The order of the force calls *)

Lemma ResetForce_after_force (c : Mutator) (p : MassPoint) :
  adds_force c = true -> ResetForce (call c p) = ResetForce p.
Proof. destruct c; cbn; intros H; try discriminate H; reflexivity. Qed.

(** X4. [ResetForce()] overwrites [f]: whatever [AddExternalForce] and
    [AddDampingForce] calls came before it are lost, and the object is the
    one [ResetForce()] alone would have produced. *)
Theorem ResetForce_discards_earlier_forces
  (cs : list Mutator) (p : MassPoint) :
  forallb adds_force cs = true ->
  ResetForce (call_all cs p) = ResetForce p.
Proof.
  induction cs as [ | c cs IH ] using rev_ind; intros Hcs.
  - reflexivity.
  - rewrite forallb_app in Hcs; apply andb_prop in Hcs.
    destruct Hcs as [Hcs Hc]; cbn in Hc; rewrite Bool.andb_true_r in Hc.
    rewrite call_all_snoc, ResetForce_after_force by exact Hc.
    exact (IH Hcs).
Qed.

(** A gravity-like force and a drag, applied before the reset. *)
Lemma ResetForce_discards_earlier_forces_sample :
  forallb adds_force
    [CallAddExternalForce (mkvec3 0 (-10) 0); CallAddDampingForce 2] = true /\
  ResetForce
    (call_all [CallAddExternalForce (mkvec3 0 (-10) 0); CallAddDampingForce 2]
       unit_step_point)
  = ResetForce unit_step_point.
Proof.
  split; [ reflexivity | ].
  apply ResetForce_discards_earlier_forces; reflexivity.
Defined.

(** X5. A second [ResetForce()] in a row changes the object exactly when
    the first one had a pending force to commit: the two calls give what
    one call gives if and only if [df] was the zero vector. *)
Theorem ResetForce_idempotent_iff_nothing_pending (p : MassPoint) :
  ResetForce (ResetForce p) = ResetForce p <-> df p = zeroVec.
Proof.
  rewrite (ResetForce_unfold (ResetForce p)), !ResetForce_unfold.
  cbn [r rMinus rPlus r0 v vMinus vPlus v0 vRes f dr df mass].
  split.
  - intros H; injection H as H; symmetry; exact H.
  - intros ->; reflexivity.
Qed.




(* ================================================================= *)
(** ** Zeros and NaN in the accumulators *)

Lemma zero_double_cases (a : Real) :
  zero_double a = true -> a = 0 \/ a = -0.
Proof.
  unfold zero_double; intros H.
  rewrite <- (SF2Prim_Prim2SF a).
  destruct (Prim2SF a) as [[ | ] | | | ]; try discriminate H;
    [ right | left ]; reflexivity.
Qed.

(** Adding [-0.] returns the other operand as it is. *)
Lemma add_negative_zero_r (a : Real) : a + -0 = a.
Proof.
  apply Prim2SF_inj; rewrite add_spec.
  change (Prim2SF (-0)) with (S754_zero true).
  destruct (Prim2SF a) as [[ | ] | | | ]; reflexivity.
Qed.

Lemma add_zero_double (a w : Real) :
  zero_double w = true -> same_up_to_zero_sign a (a + w).
Proof.
  intros H; destruct (zero_double_cases w H) as [-> | ->].
  - apply add_zero_r.
  - left; apply add_negative_zero_r.
Qed.

Lemma vadd_null_vector (a w : vec3 Real) :
  null_vector w = true -> vec3_same_up_to_zero_sign a (vadd a w).
Proof.
  unfold null_vector; intros H.
  apply andb_prop in H; destruct H as [H Hz].
  apply andb_prop in H; destruct H as [Hx Hy].
  unfold vec3_same_up_to_zero_sign; cbn; auto using add_zero_double.
Qed.

(** A finite double times a zero is a zero. *)
Lemma mul_zero_double (k w : Real) :
  finite_double k = true -> finite_double w = true ->
  (zero_double k || zero_double w)%bool = true ->
  zero_double (k * w) = true.
Proof.
  unfold finite_double, zero_double; rewrite mul_spec.
  destruct (Prim2SF k), (Prim2SF w); cbn; intros; try reflexivity;
    discriminate.
Qed.

Lemma opp_finite_double (b : Real) : finite_double (- b) = finite_double b.
Proof. unfold finite_double; rewrite opp_spec; now destruct (Prim2SF b). Qed.

Lemma opp_zero_double (b : Real) : zero_double (- b) = zero_double b.
Proof. unfold zero_double; rewrite opp_spec; now destruct (Prim2SF b). Qed.

Lemma nan_add_l (b : Real) : nan + b = nan.
Proof.
  apply Prim2SF_inj; rewrite add_spec.
  change (Prim2SF nan) with S754_nan; reflexivity.
Qed.

Lemma nan_add_r (a : Real) : a + nan = nan.
Proof.
  apply Prim2SF_inj; rewrite add_spec.
  change (Prim2SF nan) with S754_nan; now destruct (Prim2SF a).
Qed.

Lemma coord_vadd (a : Axis) (u w : vec3 Real) :
  coord a (vadd u w) = coord a u + coord a w.
Proof. now destruct a. Qed.

(** X7. After [ResetRestitutionVelocity()], [CorrectVelocity()] leaves
    [vRes] zero and every data member other than [vPlus] exactly as it was.
    In [vPlus] a coordinate equal to the negative zero becomes the positive
    zero, a NaN coordinate stays NaN, and every other coordinate is exactly
    as it was: [vPlus] ends at [vmap plus_zero] of what it was.  When no
    coordinate of [vPlus] is a negative zero or a NaN the whole object is
    exactly as it was. *)
Theorem CorrectVelocity_after_reset (p : MassPoint) :
  let q := ResetRestitutionVelocity p in
  vRes (CorrectVelocity q) = zeroVec /\
  unchanged_except [M_vPlus] q (CorrectVelocity q) /\
  vPlus (CorrectVelocity q) = vmap plus_zero (vPlus q) /\
  (forall a : Axis,
      (coord a (vPlus q) = -0 ->
       coord a (vPlus (CorrectVelocity q)) = 0) /\
      (coord a (vPlus q) = nan ->
       coord a (vPlus (CorrectVelocity q)) = nan) /\
      (coord a (vPlus q) <> -0 -> coord a (vPlus q) <> nan ->
       coord a (vPlus (CorrectVelocity q)) = coord a (vPlus q))) /\
  (~ has_negative_zero (vPlus p) -> ~ has_nan (vPlus p) ->
   CorrectVelocity q = q).
Proof.
  cbv zeta.
  unfold CorrectVelocity, ResetRestitutionVelocity, set_vPlus, set_vRes.
  cbn [r rMinus rPlus r0 v vMinus vPlus v0 vRes f dr df mass].
  rewrite vadd_zeroVec_plus_zero.
  split; [ reflexivity | ].
  split; [ frame | ].
  split; [ reflexivity | ].
  split.
  - intros a; destruct (coord_plus_zero a (vPlus p)) as (A & B & C).
    repeat split; auto.
  - intros Hnz _; now rewrite vmap_plus_zero_exact.
Qed.

(** A point whose predicted velocity is [(-0., 1, 0)]: after the reset the
    correction turns the x coordinate into [+0.] and keeps the others. *)
Lemma CorrectVelocity_after_reset_sample :
  vPlus (CorrectVelocity
           (ResetRestitutionVelocity
              (set_vPlus (mkvec3 (-0) 1 0) unit_step_point)))
  = mkvec3 0 1 0.
Proof.
  destruct (CorrectVelocity_after_reset
              (set_vPlus (mkvec3 (-0) 1 0) unit_step_point))
    as (_ & _ & E & _).
  rewrite E; reflexivity.
Defined.

(** X11. [AddExternalForce] with a null force (every coordinate [+0.] or
    [-0.]) leaves each coordinate of [f] as it was, except that a negative
    zero may become the positive zero; no other data member changes. *)
Theorem AddExternalForce_null_force (fvec : vec3 Real) (p : MassPoint) :
  null_vector fvec = true ->
  vec3_same_up_to_zero_sign (f p) (f (AddExternalForce fvec p)) /\
  unchanged_except [M_f] p (AddExternalForce fvec p).
Proof.
  intros H; unfold AddExternalForce, set_f; cbn [f].
  split; [ now apply vadd_null_vector | frame ].
Qed.

Lemma AddExternalForce_null_force_sample :
  null_vector zeroVec = true /\
  vec3_same_up_to_zero_sign
    (f far_point) (f (AddExternalForce zeroVec far_point)).
Proof.
  split; [ reflexivity | ].
  apply (@AddExternalForce_null_force zeroVec far_point); reflexivity.
Defined.

(** X10. [AddDampingForce(b)] exerts no force on a point at rest, and a
    zero coefficient exerts no force on a point in motion, provided the
    other factor is finite: each coordinate of [f] is as it was, except
    that a negative zero may become the positive zero. *)
Theorem AddDampingForce_no_drag (b : Real) (p : MassPoint) :
  no_drag b (v p) = true ->
  vec3_same_up_to_zero_sign (f p) (f (AddDampingForce b p)) /\
  unchanged_except [M_f] p (AddDampingForce b p).
Proof.
  unfold no_drag, finite_vector, null_vector; intros H.
  apply andb_prop in H; destruct H as [H Hz].
  apply andb_prop in H; destruct H as [Hb Hv].
  apply andb_prop in Hv; destruct Hv as [Hv Hvz].
  apply andb_prop in Hv; destruct Hv as [Hvx Hvy].
  unfold AddDampingForce, set_f; cbn [f].
  split; [ | frame ].
  apply vadd_null_vector.
  unfold null_vector, vscale, vmap; cbn [x y z].
  rewrite <- opp_finite_double in Hb.
  rewrite <- opp_zero_double in Hz.
  rewrite !mul_zero_double; try assumption; try reflexivity;
    destruct (zero_double (- b)); cbn in *; try reflexivity;
    apply andb_prop in Hz; destruct Hz as [Hz1 Hz3];
    apply andb_prop in Hz1; destruct Hz1 as [Hz1 Hz2]; assumption.
Qed.

(** A point at rest, under a drag of coefficient [2]. *)
Lemma AddDampingForce_no_drag_sample :
  no_drag 2 (v far_point) = true /\
  vec3_same_up_to_zero_sign (f far_point) (f (AddDampingForce 2 far_point)).
Proof.
  split; [ reflexivity | ].
  apply (@AddDampingForce_no_drag 2 far_point); reflexivity.
Defined.

(** One call other than [ResetForce] keeps a NaN coordinate of [f]. *)
Lemma call_keeps_nan_force (a : Axis) (c : Mutator) (q : MassPoint) :
  is_ResetForce c = false ->
  coord a (f q) = nan -> coord a (f (call c q)) = nan.
Proof.
  intros Hc Hnan; destruct c; try discriminate Hc; cbn; try exact Hnan;
    rewrite coord_vadd, Hnan; apply nan_add_l.
Qed.

(** X9. A NaN in the force is sticky: once a coordinate of [f] is NaN it
    stays NaN through every history of calls that contains no
    [ResetForce()], whatever forces are added. *)
Theorem nan_force_persists (a : Axis) (cs : list Mutator) (p : MassPoint) :
  none_of is_ResetForce cs = true ->
  coord a (f p) = nan ->
  coord a (f (call_all cs p)) = nan.
Proof.
  revert p; induction cs as [ | c cs IH ]; intros p Hcs Hnan.
  - exact Hnan.
  - apply none_of_cons in Hcs; destruct Hcs as [Hc Hcs].
    rewrite call_all_cons.
    apply IH; [ exact Hcs | now apply call_keeps_nan_force ].
Qed.

Lemma nan_force_persists_sample :
  coord Ay
    (f (call_all [CallAddExternalForce (mkvec3 1 1 1); CallAddDampingForce 2;
                  CallResetDisplacement] nan_force_point)) = nan.
Proof.
  apply (@nan_force_persists Ay
           [CallAddExternalForce (mkvec3 1 1 1); CallAddDampingForce 2;
            CallResetDisplacement] nan_force_point);
    reflexivity.
Defined.

(** One call keeps a NaN coordinate of [rPlus]. *)
Lemma call_keeps_nan_rPlus (a : Axis) (c : Mutator) (q : MassPoint) :
  coord a (rPlus q) = nan -> coord a (rPlus (call c q)) = nan.
Proof.
  intros Hnan; destruct c; cbn; try exact Hnan.
  rewrite coord_vadd, Hnan; apply nan_add_l.
Qed.

(** X14. A NaN displacement poisons the predicted position for good: if a
    coordinate of [dr] is NaN, then after [CorrectPosition()] that
    coordinate of [rPlus] is NaN, and it stays NaN through every history
    of the nine public mutating member functions, none of which assigns
    [rPlus] afresh. *)
Theorem nan_displacement_poisons_rPlus
  (a : Axis) (cs : list Mutator) (p : MassPoint) :
  coord a (dr p) = nan ->
  coord a (rPlus (call_all cs (CorrectPosition p))) = nan.
Proof.
  intros Hnan.
  assert (H0 : coord a (rPlus (CorrectPosition p)) = nan).
  { unfold CorrectPosition, set_rPlus; cbn [rPlus].
    rewrite coord_vadd, Hnan; apply nan_add_r. }
  revert H0; generalize (CorrectPosition p) as q.
  induction cs as [ | c cs IH ]; intros q Hq.
  - exact Hq.
  - rewrite call_all_cons; apply IH; now apply call_keeps_nan_rPlus.
Qed.

Lemma nan_displacement_poisons_rPlus_sample :
  coord Az
    (rPlus (call_all [CallResetDisplacement; CallCorrectPosition]
              (CorrectPosition nan_displacement_point))) = nan.
Proof.
  apply (@nan_displacement_poisons_rPlus Az
           [CallResetDisplacement; CallCorrectPosition]
           nan_displacement_point).
  reflexivity.
Defined.

(* ================================================================= *)
(** ** Scheduling the corrections *)

(** X13. [CorrectPosition()] commutes with every call except
    [ResetDisplacement()], and [CorrectVelocity()] with every call except
    [ResetRestitutionVelocity()]: a correction can be scheduled anywhere
    in the step relative to the other calls, as long as it stays on its
    side of the reset of its own accumulator. *)
Theorem corrections_commute_with_other_calls (c : Mutator) (p : MassPoint) :
  (is_ResetDisplacement c = false ->
   CorrectPosition (call c p) = call c (CorrectPosition p)) /\
  (is_ResetRestitutionVelocity c = false ->
   CorrectVelocity (call c p) = call c (CorrectVelocity p)).
Proof.
  split; intros Hc; destruct c; try discriminate Hc; reflexivity.
Qed.

Lemma corrections_commute_with_other_calls_sample :
  CorrectPosition (AddDampingForce 2 far_point)
  = AddDampingForce 2 (CorrectPosition far_point).
Proof.
  destruct (corrections_commute_with_other_calls
              (CallAddDampingForce 2) far_point) as [H _].
  apply H; reflexivity.
Defined.

(* ================================================================= *)
(** ** The stream inserter across calls and points *)

Lemma append_empty_r (a : string) : (a ++ "")%string = a.
Proof.
  induction a as [ | ch a IH ]; cbn; [ reflexivity | now rewrite IH ].
Qed.

Section StreamInserterHistories.

Variable show : Real -> string.

Lemma call_keeps_text (c : Mutator) (q : MassPoint) :
  is_Perturb c = false -> r (call c q) = r q /\ r0 (call c q) = r0 q.
Proof. destruct c; cbn; intros H; try discriminate H; auto. Qed.

(** X8. The text streamed for a point changes through [Perturb] only:
    across a history of calls without [Perturb] the inserter writes the
    same characters. *)
Theorem text_changes_only_by_Perturb
  (out : ostream) (cs : list Mutator) (p : MassPoint) :
  none_of is_Perturb cs = true ->
  operator_insert show out (call_all cs p) = operator_insert show out p.
Proof.
  intros Hcs.
  assert (H : r (call_all cs p) = r p /\ r0 (call_all cs p) = r0 p).
  { revert p; induction cs as [ | c cs IH ]; intros p.
    - split; reflexivity.
    - apply none_of_cons in Hcs; destruct Hcs as [Hc Hcs].
      rewrite call_all_cons.
      destruct (IH Hcs (call c p)) as [A B].
      destruct (call_keeps_text c p Hc) as [A' B'].
      split; congruence. }
  destruct H as [Hr Hr0].
  now rewrite !operator_insert_by_parts, Hr, Hr0.
Qed.

(** X12. The inserter returns the stream it wrote to, so insertions
    chain: [out << p1 << p2 << ...] is [out] followed by the line of each
    point in turn; what was in the stream before is kept in front. *)
Theorem insert_all_concatenates_lines (out : ostream) (ps : list MassPoint) :
  insert_all show out ps
  = (out ++ fold_right (fun p rest => text_line show p ++ rest) "" ps)%string.
Proof.
  unfold insert_all; revert out.
  induction ps as [ | p ps IH ]; intros out; cbn [fold_left fold_right].
  - now rewrite append_empty_r.
  - rewrite IH, operator_insert_by_parts, append_assoc.
    reflexivity.
Qed.

End StreamInserterHistories.

Lemma text_changes_only_by_Perturb_sample :
  operator_insert Scenario.show ""
    (call_all [CallSetMass 3; CallResetForce; CallCorrectPosition] far_point)
  = operator_insert Scenario.show "" far_point.
Proof.
  apply (@text_changes_only_by_Perturb Scenario.show ""
           [CallSetMass 3; CallResetForce; CallCorrectPosition] far_point).
  reflexivity.
Defined.

(* ================================================================= *)
(** ** Perturb *)

(** X15. [Perturb] bypasses the time-sample pipeline: it commutes with
    every call other than [Perturb], and no history of calls without
    [Perturb] changes the current position [r]. *)
Theorem Perturb_is_independent_of_other_calls
  (w : vec3 Real) (cs : list Mutator) (p : MassPoint) :
  none_of is_Perturb cs = true ->
  call_all cs (Perturb w p) = Perturb w (call_all cs p) /\
  r (call_all cs p) = r p.
Proof.
  revert p; induction cs as [ | c cs IH ]; intros p Hcs.
  - split; reflexivity.
  - apply none_of_cons in Hcs; destruct Hcs as [Hc Hcs].
    rewrite !call_all_cons.
    destruct (IH (call c p) Hcs) as [IH1 IH2].
    assert (E : call c (Perturb w p) = Perturb w (call c p))
      by (destruct c; try discriminate Hc; reflexivity).
    rewrite E, IH1, IH2.
    split; [ reflexivity | ].
    destruct c; try discriminate Hc; reflexivity.
Qed.

Lemma Perturb_is_independent_of_other_calls_sample :
  call_all [CallResetForce; CallCorrectPosition; CallAddDampingForce 2]
    (Perturb (mkvec3 1 2 3) far_point)
  = Perturb (mkvec3 1 2 3)
      (call_all [CallResetForce; CallCorrectPosition; CallAddDampingForce 2]
         far_point).
Proof.
  apply (@Perturb_is_independent_of_other_calls (mkvec3 1 2 3)
           [CallResetForce; CallCorrectPosition; CallAddDampingForce 2]
           far_point).
  reflexivity.
Defined.
